(** * generate-snippets.py: combined markdown files for multi-language snippets

    A shallow embedding of [scripts/generate-snippets.py] and the properties
    of its specification.

    Conventions of the embedding:
    - a Python [str] is a list of characters ([list ascii]); text is written
      to and read from files with the identity encoding;
    - a Python [dict] keeps insertion order, so the two configuration tables
      and the [found] dictionary are association lists with unique keys;
    - the file system is a finite map from absolute paths to the bytes of the
      regular files, together with the tree of directory names below the
      snippets folder (the program creates and removes no directory); the
      order in which the files of a folder are reported is a parameter;
    - [os.path] is [posixpath]: the program itself builds references with
      the separator of POSIX, where [os.linesep] is LF, so that writing in
      text mode stores the text unchanged, while reading in text mode
      returns the line endings CR LF and CR as LF (universal newlines);
    - the statements that can raise are run in a state-and-exception monad;
      the only exception the modelled statements can raise is [KeyError]
      ([FileNotFoundError] is caught by the program itself, and other
      failures of the operating system are outside the model). *)

From Stdlib Require Import String Ascii List Arith Lia.
From stdpp Require Import base option list sorting strings gmap fin_maps.

(** ** Python strings *)

Definition str : Type := list ascii.

Coercion list_ascii_of_string : string >-> list.

(** The characters that no string literal of this file can hold. *)
Definition dquote : str := ["034"%char].
Definition LF : ascii := "010"%char.
Definition CR : ascii := "013"%char.
Definition slash : ascii := "/"%char.

(** [s.startswith(p)] and [s.endswith(e)]. *)
Definition startswith (s p : str) : bool := bool_decide (p `prefix_of` s).
Definition endswith (s e : str) : bool := bool_decide (e `suffix_of` s).

(** [s[n:]] for a natural number [n]. *)
Definition slice_from (n : nat) (s : str) : str := drop n s.

(** [s[:-n]]: for [n = 0] Python reads it as [s[:0]], the empty string; a
    negative index before the start of the string is clipped to the start. *)
Definition slice_to_neg (n : nat) (s : str) : str :=
  match n with
  | 0 => []
  | _ => take (length s - n) s
  end.

(** [sep.join(l)]. *)
Fixpoint str_join (sep : str) (l : list str) : str :=
  match l with
  | [] => []
  | [x] => x
  | x :: l' => x ++ sep ++ str_join sep l'
  end.

(** [s.split(c)] for a separator of one character: never the empty list. *)
Fixpoint str_split (c : ascii) (s : str) : list str :=
  match s with
  | [] => [[]]
  | x :: s' =>
      if decide (x = c) then [] :: str_split c s'
      else match str_split c s' with
           | [] => [[x]]
           | h :: t => (x :: h) :: t
           end
  end.

(** [a < b] on strings: by code points, a proper prefix is smaller. *)
Fixpoint str_lt (a b : str) : bool :=
  match a, b with
  | [], [] => false
  | [], _ :: _ => true
  | _ :: _, [] => false
  | x :: a', y :: b' =>
      if nat_of_ascii x <? nat_of_ascii y then true
      else if nat_of_ascii y <? nat_of_ascii x then false
      else str_lt a' b'
  end.

(** [sorted(l, key=key, reverse=reverse)]: the sort is stable, also when it
    is reversed. An element is inserted behind every element that it is not
    strictly before. *)
Fixpoint insert_sorted {A} (before : A → A → bool) (x : A) (l : list A) : list A :=
  match l with
  | [] => [x]
  | y :: l' => if before x y then x :: l else y :: insert_sorted before x l'
  end.

Definition sorted {A K} (lt : K → K → bool) (key : A → K) (reverse : bool)
    (l : list A) : list A :=
  let before x y := if reverse then lt (key y) (key x) else lt (key x) (key y) in
  foldl (λ acc x, insert_sorted before x acc) [] l.

(** ** Dictionaries in insertion order *)

Definition dict (V : Type) : Type := list (str * V).

Definition dict_keys {V} (d : dict V) : list str := d.*1.

Fixpoint dict_lookup {V} (d : dict V) (k : str) : option V :=
  match d with
  | [] => None
  | (k', v) :: d' => if decide (k' = k) then Some v else dict_lookup d' k
  end.

(** [d.setdefault(k, []).append(v)]: a new key goes to the end, a key that
    is there keeps its place and its list grows at the end. *)
Fixpoint setdefault_append (k v : str) (d : dict (list str)) : dict (list str) :=
  match d with
  | [] => [(k, [v])]
  | (k', vs) :: d' =>
      if decide (k' = k) then (k', vs ++ [v]) :: d'
      else (k', vs) :: setdefault_append k v d'
  end.

(** ** Configuration (lines 12-47) *)

Definition EXTENSION_MAPPING : dict str :=
  [ (".py" : str, "Python" : str);
    (".cs" : str, "C#" : str);
    (".kt" : str, "Kotlin" : str);
    (".java" : str, "Java" : str);
    (".go" : str, "Go" : str);
    (".php" : str, "PHP" : str);
    (".ts" : str, "TypeScript" : str);
    (".schema.json" : str, "JSON Schema" : str) ].

Definition SYNTAX_MAPPING : dict str :=
  [ (".py" : str, "python" : str);
    (".cs" : str, "csharp" : str);
    (".kt" : str, "kotlin" : str);
    (".java" : str, "java" : str);
    (".go" : str, "go" : str);
    (".php" : str, "php" : str);
    (".ts" : str, "typescript" : str);
    (".schema.json" : str, "json" : str) ].

Definition COMBINED_EXT : str := ".md".

(** [sorted(EXTENSION_MAPPING.items(), key=lambda x: x[1])] *)
Definition LANGUAGE_ORDER : list (str * str) :=
  sorted str_lt snd false EXTENSION_MAPPING.

(** [sorted(EXTENSION_MAPPING.keys(), key=len, reverse=True)] *)
Definition SORTED_EXTENSIONS : list str :=
  sorted Nat.ltb (length (A:=ascii)) true (dict_keys EXTENSION_MAPPING).

(** ** [os.path] (posixpath) *)

Definition isabs (p : str) : bool := startswith p "/".

(** [join(a, b)]: an absolute [b] replaces [a]; a separator is inserted
    unless [a] is empty or ends with one. *)
Definition join (a b : str) : str :=
  if startswith b "/" then b
  else if bool_decide (a = []) || endswith a "/" then a ++ b
  else a ++ "/" ++ b.

(** One step of the loop of [normpath] over the components. *)
Definition normpath_step (initial_slashes : nat) (new_comps : list str)
    (comp : str) : list str :=
  if bool_decide (comp = [] ∨ comp = ".") then new_comps
  else if bool_decide (comp ≠ ".."
                       ∨ (initial_slashes = 0 ∧ new_comps = [])
                       ∨ (new_comps ≠ [] ∧ last new_comps = Some (".." : str)))
       then new_comps ++ [comp]
  else removelast new_comps.

Definition normpath (path : str) : str :=
  if bool_decide (path = []) then "."
  else
    let initial_slashes :=
      if startswith path "/" then
        if startswith path "//" && negb (startswith path "///") then 2 else 1
      else 0 in
    let new_comps :=
      foldl (normpath_step initial_slashes) [] (str_split slash path) in
    let path := concat (replicate initial_slashes ("/" : str))
                ++ str_join "/" new_comps in
    if bool_decide (path = []) then "." else path.

(** ** Text files

    [open(fname, "r")] reads with universal newlines: the line endings
    CR LF and CR of the file reach the program as LF. [open(fname, "w")]
    writes the text as it is. *)
Fixpoint universal_newlines (s : str) : str :=
  match s with
  | [] => []
  | c :: s' =>
      if decide (c = CR) then
        LF :: match s' with
              | [] => []
              | c' :: s'' =>
                  if decide (c' = LF) then universal_newlines s''
                  else universal_newlines s'
              end
      else c :: universal_newlines s'
  end.

(** ** The state and the exceptions *)

Inductive exn : Type :=
| KeyError (key : str).

Inductive result (A : Type) : Type :=
| Ok (a : A)
| Raise (e : exn).
Arguments Ok {A} a.
Arguments Raise {A} e.

(** The regular files, and the paths opened for writing so far (oldest
    first). The log is what a watcher of the folder would see. *)
Record fs_state : Type := FsState {
  disk : gmap str str;
  writes : list str
}.

Definition M (A : Type) : Type := fs_state → result A * fs_state.

Definition ret {A} (a : A) : M A := λ st, (Ok a, st).

Definition bind {A B} (c : M A) (k : A → M B) : M B :=
  λ st, match c st with
        | (Ok a, st') => k a st'
        | (Raise e, st') => (Raise e, st')
        end.

Definition raise {A} (e : exn) : M A := λ st, (Raise e, st).

Notation "'let*' x ':=' c 'in' k" := (bind c (λ x, k))
  (at level 10, x pattern, c at level 100, k at level 200).

(** [for x in l: body(x)] *)
Fixpoint for_each {A} (l : list A) (body : A → M unit) : M unit :=
  match l with
  | [] => ret tt
  | x :: l' => let* _ := body x in for_each l' body
  end.

(** A loop that updates a local variable of type [S]. *)
Fixpoint fold_each {A S} (l : list A) (body : S → A → M S) (s : S) : M S :=
  match l with
  | [] => ret s
  | x :: l' => let* s' := body s x in fold_each l' body s'
  end.

(** [d[k]] *)
Definition getitem {V} (d : dict V) (k : str) : M V :=
  match dict_lookup d k with
  | Some v => ret v
  | None => raise (KeyError k)
  end.

(** The [try] block of [write_if_changed]: the text of the file, or [None]
    after [FileNotFoundError]. *)
Definition read_text_or_none (fname : str) : M (option str) :=
  λ st, (Ok (universal_newlines <$> disk st !! fname), st).

(** [with open(fname, "w") as f: f.write(content)] *)
Definition write_text (fname content : str) : M unit :=
  λ st, (Ok tt, {| disk := <[fname := content]> (disk st);
                   writes := writes st ++ [fname] |}).

(** ** Directories

    The names of the sub-directories below a folder, as [os.walk] meets
    them. *)
#[local] Set Warnings "-register-all".
Inductive dirtree : Type :=
| Dir (subdirs : list (str * dirtree)).

(** The folders [os.walk(top)] yields, top down; the path of a sub-folder is
    [join(top, dirname)]. A [top] that is no directory yields nothing. *)
Fixpoint walk_dirs (top : str) (t : dirtree) : list str :=
  match t with
  | Dir subdirs =>
      top :: flat_map (λ sub, walk_dirs (join top sub.1) sub.2) subdirs
  end.

Definition walk (top : str) (t : option dirtree) : list str :=
  match t with
  | Some t => walk_dirs top t
  | None => []
  end.

(** The name under which the file at path [p] is an entry of folder [d]. *)
Definition entry_name (d p : str) : option str :=
  if startswith p (d ++ "/") then
    let name := slice_from (length d + 1) p in
    if bool_decide (name ≠ [] ∧ slash ∉ name) then Some name else None
  else None.

(** The regular files of folder [d], in the order of the map. *)
Definition dir_files (d : str) (files : gmap str str) : list str :=
  omap (entry_name d) (map_to_list files).*1.

(** ** The program (lines 50-111) *)

Section Program.

(** The working directory, [dirname(abspath(__file__))], and the order in
    which the operating system reports the files of a folder. *)
Context (cwd script_dir : str).
Context (scandir_order : str → list str → list str).

Definition abspath (path : str) : str :=
  normpath (if isabs path then path else join cwd path).

Definition snipets_path : str :=
  abspath (join (join script_dir "..") "snippets").

Definition path_to_snippet (fname : str) : option str :=
  if negb (startswith fname snipets_path) then None
  else Some ("snippets/" ++ slice_from (length snipets_path + 1) fname).

(** An f-string prints the value [None] as the text None. *)
Definition format_snippet (r : option str) : str :=
  match r with
  | Some s => s
  | None => "None"
  end.

Definition write_if_changed (fname content : str) : M unit :=
  let* old_content := read_text_or_none fname in
  if bool_decide (old_content ≠ Some content) then write_text fname content
  else ret tt.

(** Lines 77-81: the first extension of [SORTED_EXTENSIONS] that ends the
    file name. *)
Definition matched_extension (fname : str) : option str :=
  find (endswith fname) SORTED_EXTENSIONS.

(** Lines 76-85, the body of the first loop. [not matched_ext] holds for
    [None] and for the empty string. *)
Definition group_file (found : dict (list str)) (fname : str) : dict (list str) :=
  match matched_extension fname with
  | None | Some [] => found
  | Some matched_ext =>
      let base := slice_to_neg (length matched_ext) fname in
      setdefault_append base matched_ext found
  end.

(** Lines 93-99. *)
Definition tab_block (lang syntax : str) (snippet : option str) : list str :=
  [ "=== " ++ dquote ++ lang ++ dquote;
    [];
    "    ```" ++ syntax;
    "    --8<-- " ++ dquote ++ format_snippet snippet ++ dquote;
    "    ```" : str ].

Definition process_folder (path : str) (files : list str) : M unit :=
  let found := foldl group_file [] files in
  for_each found (λ '(base, exts),
    let fname := join path (base ++ COMBINED_EXT) in
    let* content :=
      fold_each LANGUAGE_ORDER (λ content '(ext, lang),
        if bool_decide (ext ∈ exts) then
          let infile := join path (base ++ ext) in
          let* syntax := getitem SYNTAX_MAPPING ext in
          ret (content ++ tab_block lang syntax (path_to_snippet infile))
        else ret content) [] in
    let content := content ++ [[]] in
    write_if_changed fname (str_join [LF] content)).

(** [os.walk] is a generator: it lists the files of a folder when the loop
    reaches the folder, after the folders before it have been processed. *)
Definition scandir (root : str) : M (list str) :=
  λ st, (Ok (scandir_order root (dir_files root (disk st))), st).

Definition generate (tree : option dirtree) : M unit :=
  for_each (walk snipets_path tree) (λ root,
    let* files := scandir root in
    process_folder (abspath (join snipets_path root)) files).

Definition on_pre_build (tree : option dirtree) : M unit := generate tree.

End Program.

(** ** Notions used by the statements *)

(** The order of [SORTED_EXTENSIONS]: no extension before a longer one. *)
Definition longer_first (a b : str) : Prop := length b ≤ length a.


(** The state after [open(fname, "w")] and [f.write(content)]. *)
Definition written (fname content : str) (st : fs_state) : fs_state :=
  {| disk := <[fname := content]> (disk st); writes := writes st ++ [fname] |}.

Section Notions.

Context (cwd script_dir : str).

(** The lines that the second loop of [process_folder] collects for one
    base name, when no lookup fails. *)
Definition present_blocks (path base : str) (exts : list str) : list str :=
  flat_map (λ '(ext, lang),
    if bool_decide (ext ∈ exts) then
      tab_block lang (default [] (dict_lookup SYNTAX_MAPPING ext))
        (path_to_snippet cwd script_dir (join path (base ++ ext)))
    else []) LANGUAGE_ORDER.

Definition combined_content (path base : str) (exts : list str) : str :=
  str_join [LF] (present_blocks path base exts ++ [[]]).

(** The calls of [write_if_changed] that [process_folder] makes, in order:
    the name of each combined file and the content computed for it. *)
Definition combined_files (path : str) (files : list str) : list (str * str) :=
  map (λ '(base, exts),
         (join path (base ++ COMBINED_EXT), combined_content path base exts))
      (foldl group_file [] files).

(** A path is under the snippets folder when it is the folder or continues
    it with a separator: the containment that a reading by path segments
    gives. *)
Definition inside_root (fname : str) : Prop :=
  fname = snipets_path cwd script_dir
  ∨ (snipets_path cwd script_dir ++ "/") `prefix_of` fname.

End Notions.

(** A file name that no extension of the table ends. *)
Definition unrecognized (fname : str) : Prop :=
  ∀ ext, ext ∈ dict_keys EXTENSION_MAPPING → ¬ ext `suffix_of` fname.

(** ** Well-formed paths and folders *)

(** The name of a directory entry: not empty, without separator, and
    neither of the two special entries. *)
Definition proper_name (c : str) : Prop :=
  c ≠ [] ∧ (slash ∉ c) ∧ c ≠ "." ∧ c ≠ "..".

(** An absolute path in normal form, other than the root: one or two
    slashes, then proper names with one slash in between. *)
Definition normal_abs (p : str) : Prop :=
  ∃ (sl : str) (cs : list str),
    (sl = "/" ∨ sl = "//") ∧ cs ≠ [] ∧ Forall proper_name cs
    ∧ p = sl ++ str_join "/" cs.

(** Every sub-folder has the name of a directory entry. *)
Fixpoint wf_dirtree (t : dirtree) : Prop :=
  match t with
  | Dir subdirs =>
      (fix all (l : list (str * dirtree)) : Prop :=
         match l with
         | [] => True
         | sub :: l' => proper_name (sub.1) ∧ wf_dirtree (sub.2) ∧ all l'
         end) subdirs
  end.

(** The base name and the extension under which the first loop of
    [process_folder] files a name. *)
Definition split_name (fname : str) : option (str * str) :=
  match matched_extension fname with
  | Some ext => Some (slice_to_neg (length ext) fname, ext)
  | None => None
  end.

(** What the first loop has collected after the file names [files]. *)
Definition groups_of (files : list str) (found : dict (list str)) : Prop :=
  NoDup (dict_keys found)
  ∧ (∀ base, base ∈ dict_keys found
             ↔ ∃ fname ext, fname ∈ files ∧ split_name fname = Some (base, ext))
  ∧ (∀ base exts, dict_lookup found base = Some exts →
       ∀ ext, ext ∈ exts
              ↔ ∃ fname, fname ∈ files ∧ split_name fname = Some (base, ext)).




(** The combined file of the example: the block of Go, then the block of
    Python, each line ended by one LF. *)
Definition demo_md : str :=
  "=== " ++ dquote ++ "Go" ++ dquote ++ [LF]
  ++ [LF]
  ++ "    ```go" ++ [LF]
  ++ "    --8<-- " ++ dquote ++ "snippets/demo.go" ++ dquote ++ [LF]
  ++ "    ```" ++ [LF]
  ++ "=== " ++ dquote ++ "Python" ++ dquote ++ [LF]
  ++ [LF]
  ++ "    ```python" ++ [LF]
  ++ "    --8<-- " ++ dquote ++ "snippets/demo.py" ++ dquote ++ [LF]
  ++ "    ```" ++ [LF].

(** ** Notions for two runs in a row *)






(** ** Tactics *)

(** A concatenation with a literal part is not the empty string. *)
Ltac by_length :=
  let H := fresh in
  intros H; apply (f_equal length) in H;
  rewrite ?length_app in H; simpl in H; lia.


(** * Properties *)

(** ** Strings *)

Lemma startswith_spec (s p : str) : startswith s p = true ↔ p `prefix_of` s.
Proof. apply bool_decide_eq_true. Qed.

Lemma endswith_spec (s e : str) : endswith s e = true ↔ e `suffix_of` s.
Proof. apply bool_decide_eq_true. Qed.

Lemma startswith_app (p s : str) : startswith (p ++ s) p = true.
Proof. apply startswith_spec. by exists s. Qed.

Lemma endswith_app (s e : str) : endswith (s ++ e) e = true.
Proof. apply endswith_spec. by exists s. Qed.

Lemma slice_from_app (p s : str) : slice_from (length p) (p ++ s) = s.
Proof. unfold slice_from. by rewrite drop_app_length. Qed.

Lemma slice_to_neg_app (s e : str) : e ≠ [] → slice_to_neg (length e) (s ++ e) = s.
Proof.
  intros He. unfold slice_to_neg.
  destruct (length e) as [|n] eqn:Hlen.
  - destruct e; [done | discriminate].
  - rewrite length_app, Hlen.
    replace (length s + S n - S n) with (length s) by lia.
    by rewrite take_app_length.
Qed.

(** ** The extension table *)

Lemma SORTED_EXTENSIONS_sorted : StronglySorted longer_first SORTED_EXTENSIONS.
Proof.
  vm_compute SORTED_EXTENSIONS.
  repeat (constructor; [| repeat constructor; unfold longer_first; simpl; lia]).
  constructor.
Qed.

Lemma SORTED_EXTENSIONS_keys (ext : str) :
  ext ∈ SORTED_EXTENSIONS ↔ ext ∈ dict_keys EXTENSION_MAPPING.
Proof.
  assert (SORTED_EXTENSIONS ≡ₚ dict_keys EXTENSION_MAPPING) as ->; [|done].
  vm_compute SORTED_EXTENSIONS. vm_compute (dict_keys _).
  apply (bool_decide_unpack _). by vm_compute.
Qed.

Lemma extensions_nonempty (ext : str) : ext ∈ SORTED_EXTENSIONS → ext ≠ [].
Proof.
  revert ext. apply Forall_forall.
  vm_compute SORTED_EXTENSIONS. by repeat constructor.
Qed.

(** The first match in a list ordered by falling length is a longest one. *)
Lemma find_endswith_longest (fname : str) (l : list str) (ext : str) :
  StronglySorted longer_first l →
  find (endswith fname) l = Some ext →
  ext ∈ l ∧ ext `suffix_of` fname ∧
  ∀ ext', ext' ∈ l → ext' `suffix_of` fname → length ext' ≤ length ext.
Proof.
  induction 1 as [|x l Hsorted IH Hx]; simpl; [done|].
  destruct (endswith fname x) eqn:Hend.
  - intros [= <-]. apply endswith_spec in Hend.
    split_and!; [left | done |].
    intros ext' [->|Hin]%elem_of_cons _; [done|].
    rewrite Forall_forall in Hx. by apply Hx.
  - intros Hfind. destruct (IH Hfind) as (Hin & Hsuf & Hmax).
    split_and!; [by right | done |].
    intros ext' [->|Hin']%elem_of_cons Hsuf'; [|by apply Hmax].
    apply endswith_spec in Hsuf'. congruence.
Qed.

Lemma find_endswith_none (fname : str) (l : list str) :
  find (endswith fname) l = None ↔ ∀ ext, ext ∈ l → ¬ ext `suffix_of` fname.
Proof.
  induction l as [|x l IH]; simpl.
  - split; [|done]. intros _ ext Hin. by apply elem_of_nil in Hin.
  - destruct (endswith fname x) eqn:Hend.
    + split; [done|]. intros Hno. apply endswith_spec in Hend.
      exfalso. apply (Hno x); [left | done].
    + rewrite IH. split.
      * intros Hno ext [->|Hin]%elem_of_cons; [|by apply Hno].
        intros Hsuf%endswith_spec. congruence.
      * intros Hno ext Hin. apply Hno. by right.
Qed.

(** What the first loop of [process_folder] does with one file name. *)
Lemma group_file_matched (found : dict (list str)) (fname ext : str) :
  matched_extension fname = Some ext →
  ∃ base, fname = base ++ ext ∧ ext ≠ [] ∧
          group_file found fname = setdefault_append base ext found.
Proof.
  intros Hm. unfold group_file. rewrite Hm.
  destruct (find_endswith_longest _ _ _ SORTED_EXTENSIONS_sorted Hm)
    as (Hin & [base ->] & _).
  pose proof (extensions_nonempty _ Hin) as Hne.
  exists base. split_and!; [done..|].
  destruct ext as [|c ext]; [done|].
  by rewrite slice_to_neg_app.
Qed.

Lemma group_file_unmatched (found : dict (list str)) (fname : str) :
  matched_extension fname = None → group_file found fname = found.
Proof. intros Hm. unfold group_file. by rewrite Hm. Qed.

(** C2: the extension matched for a file name is the longest extension of
    the table that ends the name, the base name is the name without it, and
    the file joins the group of that base name under that extension; a name
    that no extension ends joins no group. [example.schema.json] is grouped
    under [.schema.json] with the base name [example]. *)
Theorem longest_extension_match :
  (∀ fname : str,
     (matched_extension fname = None ∧ unrecognized fname ∧
      ∀ found, group_file found fname = found)
     ∨ (∃ ext base,
          matched_extension fname = Some ext ∧
          ext ∈ dict_keys EXTENSION_MAPPING ∧
          fname = base ++ ext ∧
          (∀ ext', ext' ∈ dict_keys EXTENSION_MAPPING → ext' `suffix_of` fname →
                   length ext' ≤ length ext) ∧
          ∀ found, group_file found fname = setdefault_append base ext found))
  ∧ matched_extension "example.schema.json" = Some (".schema.json" : str)
  ∧ group_file [] "example.schema.json"
    = [("example" : str, [".schema.json" : str])].
Proof.
  split; [|by vm_compute].
  intros fname. destruct (matched_extension fname) as [ext|] eqn:Hm.
  - right.
    destruct (find_endswith_longest _ _ _ SORTED_EXTENSIONS_sorted Hm)
      as (Hin & _ & Hmax).
    destruct (group_file_matched [] _ _ Hm) as (base & Hname & _ & _).
    exists ext, base. split_and!; [done | by apply SORTED_EXTENSIONS_keys | done | |].
    + intros ext' Hin'. apply Hmax. by apply SORTED_EXTENSIONS_keys.
    + intros found.
      destruct (group_file_matched found _ _ Hm) as (base' & Hname' & _ & ->).
      f_equal. rewrite Hname in Hname'. by apply app_inv_tail in Hname'.
  - left. split_and!; [done | | by intros; apply group_file_unmatched].
    intros ext Hin. eapply find_endswith_none; [exact Hm|].
    by apply SORTED_EXTENSIONS_keys.
Qed.

(** ** The monad and the loops *)

Lemma for_each_map {A B} (g : A → B) (F : A → M unit) (G : B → M unit)
    (l : list A) (st : fs_state) :
  (∀ x st, F x st = G (g x) st) →
  for_each l F st = for_each (map g l) G st.
Proof.
  intros HFG. revert st. induction l as [|x l IH]; intros st; simpl; [done|].
  unfold bind. rewrite HFG. destruct (G (g x) st) as [[[]|e] st']; [apply IH | done].
Qed.

Lemma for_each_app {A} (F : A → M unit) (l1 l2 : list A) (st : fs_state) :
  for_each (l1 ++ l2) F st
  = (let* _ := for_each l1 F in for_each l2 F) st.
Proof.
  revert st. induction l1 as [|x l1 IH]; intros st; simpl; [done|].
  unfold bind in *. destruct (F x st) as [[[]|e] st']; [|done].
  by rewrite IH.
Qed.

(** ** The syntax table *)

Lemma syntax_keys (ext : str) :
  ext ∈ dict_keys SYNTAX_MAPPING ↔ ext ∈ dict_keys EXTENSION_MAPPING.
Proof. by vm_compute dict_keys. Qed.

Lemma dict_lookup_is_Some {V} (d : dict V) (k : str) :
  is_Some (dict_lookup d k) ↔ k ∈ dict_keys d.
Proof.
  unfold dict_keys. induction d as [|[k' v] d IH]; simpl.
  - rewrite elem_of_nil. split; [by intros [? ?] | done].
  - rewrite elem_of_cons. destruct (decide (k' = k)) as [->|Hne].
    + split; [by left | by eexists].
    + rewrite IH. split; [by right | by intros [?|?]].
Qed.

Lemma LANGUAGE_ORDER_keys (ext lang : str) :
  (ext, lang) ∈ LANGUAGE_ORDER → ext ∈ dict_keys EXTENSION_MAPPING.
Proof.
  assert (LANGUAGE_ORDER ≡ₚ EXTENSION_MAPPING) as ->.
  { vm_compute LANGUAGE_ORDER. apply (bool_decide_unpack _). by vm_compute. }
  intros Hin. unfold dict_keys. by apply (list_elem_of_fmap_2 fst) in Hin.
Qed.

Lemma getitem_syntax (ext : str) (st : fs_state) :
  ext ∈ dict_keys EXTENSION_MAPPING →
  ∃ syntax, dict_lookup SYNTAX_MAPPING ext = Some syntax
            ∧ getitem SYNTAX_MAPPING ext st = (Ok syntax, st).
Proof.
  intros Hin%syntax_keys%dict_lookup_is_Some. destruct Hin as [syntax Hs].
  exists syntax. split; [done|]. unfold getitem. by rewrite Hs.
Qed.

(** ** [write_if_changed] *)

Lemma write_if_changed_cases (fname content : str) (st : fs_state) :
  write_if_changed fname content st
  = (Ok tt,
     if decide (universal_newlines <$> disk st !! fname = Some content)
     then st else written fname content st).
Proof.
  unfold write_if_changed, bind, read_text_or_none. simpl.
  destruct (decide _) as [Heq|Hne].
  - rewrite bool_decide_eq_false_2; [done|]. by intros [].
  - by rewrite bool_decide_eq_true_2.
Qed.

Lemma write_if_changed_new (fname content : str) (st : fs_state) :
  disk st !! fname = None →
  write_if_changed fname content st = (Ok tt, written fname content st).
Proof. intros Hnone. rewrite write_if_changed_cases, Hnone. by case_decide. Qed.

Lemma universal_newlines_id (s : str) : CR ∉ s → universal_newlines s = s.
Proof.
  induction s as [|c s IH]; [done|]. intros Hnot. simpl.
  rewrite not_elem_of_cons in Hnot. destruct Hnot as [Hc Hs].
  rewrite decide_False by done. by rewrite IH.
Qed.

(** ** The shape of [process_folder] *)

Section ProcessFolder.

Context (cwd script_dir : str).


Lemma collect_blocks (path base : str) (exts : list str)
    (order : list (str * str)) (content : list str) (st : fs_state) :
  (∀ ext lang, (ext, lang) ∈ order → ext ∈ dict_keys EXTENSION_MAPPING) →
  fold_each order (λ content '(ext, lang),
      if bool_decide (ext ∈ exts) then
        let infile := join path (base ++ ext) in
        let* syntax := getitem SYNTAX_MAPPING ext in
        ret (content ++ tab_block lang syntax (path_to_snippet cwd script_dir infile))
      else ret content) content st
  = (Ok (content ++ flat_map (λ '(ext, lang),
           if bool_decide (ext ∈ exts) then
             tab_block lang (default [] (dict_lookup SYNTAX_MAPPING ext))
               (path_to_snippet cwd script_dir (join path (base ++ ext)))
           else []) order), st).
Proof.
  revert content. induction order as [|[ext lang] order IH]; intros content Hkeys.
  - simpl. by rewrite app_nil_r.
  - cbn [fold_each flat_map]. unfold bind at 1.
    assert (ext ∈ dict_keys EXTENSION_MAPPING) as Hext by (eapply Hkeys; left).
    destruct (bool_decide (ext ∈ exts)).
    + destruct (getitem_syntax ext st Hext) as (syntax & Hlook & Hget).
      unfold bind. rewrite Hget. unfold ret at 1.
      rewrite IH by (intros; eapply Hkeys; by right).
      rewrite Hlook. simpl. by rewrite <- app_assoc.
    + unfold ret at 1. rewrite IH by (intros; eapply Hkeys; by right). done.
Qed.

(** [process_folder] calls [write_if_changed] once for each combined file,
    in the order of [combined_files]. *)
Lemma process_folder_writes (path : str) (files : list str) (st : fs_state) :
  process_folder cwd script_dir path files st
  = for_each (combined_files cwd script_dir path files)
      (λ '(fname, content), write_if_changed fname content) st.
Proof.
  unfold process_folder, combined_files.
  apply for_each_map. intros [base exts] st'.
  unfold bind at 1. rewrite collect_blocks by apply LANGUAGE_ORDER_keys.
  done.
Qed.

Lemma write_all_ok (l : list (str * str)) (st : fs_state) :
  ∃ st', for_each l (λ '(fname, content), write_if_changed fname content) st
         = (Ok tt, st').
Proof.
  revert st. induction l as [|[fname content] l IH]; intros st; simpl.
  - by eexists.
  - unfold bind. rewrite write_if_changed_cases. apply IH.
Qed.

Lemma process_folder_ok (path : str) (files : list str) (st : fs_state) :
  ∃ st', process_folder cwd script_dir path files st = (Ok tt, st').
Proof. rewrite process_folder_writes. apply write_all_ok. Qed.

End ProcessFolder.

(** ** Claims about one call *)

(** C10: the syntax table and the extension table have the same keys, so the
    lookup [SYNTAX_MAPPING[ext]] is defined for every extension matched
    during grouping, and [process_folder] never raises [KeyError]: it ends
    normally for every folder and every list of file names. *)
Theorem syntax_lookup_defined :
  (∀ ext : str,
     ext ∈ dict_keys SYNTAX_MAPPING ↔ ext ∈ dict_keys EXTENSION_MAPPING)
  ∧ (∀ (fname ext : str) (st : fs_state),
       matched_extension fname = Some ext →
       ∃ syntax, getitem SYNTAX_MAPPING ext st = (Ok syntax, st))
  ∧ (∀ (cwd script_dir path : str) (files : list str) (st : fs_state),
       ∃ st', process_folder cwd script_dir path files st = (Ok tt, st')).
Proof.
  split_and!.
  - apply syntax_keys.
  - intros fname ext st Hm.
    destruct (find_endswith_longest _ _ _ SORTED_EXTENSIONS_sorted Hm) as (Hin & _).
    apply SORTED_EXTENSIONS_keys in Hin.
    destruct (getitem_syntax ext st Hin) as (syntax & _ & Hget). by exists syntax.
  - intros. apply process_folder_ok.
Qed.

Lemma unrecognized_unmatched (fname : str) :
  unrecognized fname ↔ matched_extension fname = None.
Proof.
  unfold unrecognized, matched_extension. rewrite find_endswith_none.
  split; intros Hno ext Hin; apply Hno; by apply SORTED_EXTENSIONS_keys.
Qed.

Lemma group_files_unrecognized (files : list str) (found : dict (list str)) :
  Forall unrecognized files → foldl group_file found files = found.
Proof.
  induction 1 as [|fname files Hf _ IH]; simpl; [done|].
  rewrite group_file_unmatched; [done|]. by apply unrecognized_unmatched.
Qed.

(** C8: a file whose name no extension of the table ends is skipped without
    an error and joins no group; for a folder in which no file name is
    recognized, [process_folder] computes no combined file, ends normally and
    leaves the files and the log of writes as they were. *)
Theorem unmatched_files_skipped (cwd script_dir path : str)
    (files : list str) (st : fs_state) :
  Forall unrecognized files →
  (∀ fname found, fname ∈ files → group_file found fname = found)
  ∧ combined_files cwd script_dir path files = []
  ∧ process_folder cwd script_dir path files st = (Ok tt, st).
Proof.
  intros Hfiles. split_and!.
  - intros fname found Hin. rewrite Forall_forall in Hfiles.
    apply group_file_unmatched, unrecognized_unmatched. by apply Hfiles.
  - unfold combined_files. by rewrite group_files_unrecognized.
  - rewrite process_folder_writes. unfold combined_files.
    by rewrite group_files_unrecognized.
Qed.

(** C6, as the code has it, for a content without carriage return (the
    content that [process_folder] computes from names without one):
    [write_if_changed] compares [content] with the text that reading the
    file returns, in which the line endings CR LF and CR have become LF.
    When a file is there and is [content] byte for byte, or reads as
    [content], nothing is written and the state is unchanged; when the text
    read differs, [content] is written; when no file is there, that is no
    error and [content] is written, which creates the file. *)
Theorem write_if_changed_compares_text (fname content : str) (st : fs_state) :
  CR ∉ content →
  (∀ old, disk st !! fname = Some old → old = content →
          write_if_changed fname content st = (Ok tt, st))
  ∧ (∀ old, disk st !! fname = Some old → universal_newlines old = content →
            write_if_changed fname content st = (Ok tt, st))
  ∧ (∀ old, disk st !! fname = Some old → universal_newlines old ≠ content →
            write_if_changed fname content st = (Ok tt, written fname content st))
  ∧ (disk st !! fname = None →
     write_if_changed fname content st = (Ok tt, written fname content st))
  ∧ (written fname content st).(disk) !! fname = Some content.
Proof.
  intros Hcontent. rewrite write_if_changed_cases. split_and!.
  - intros old -> ->. case_decide as Hread; [done|]. destruct Hread. simpl.
    by rewrite universal_newlines_id.
  - intros old -> <-. by case_decide.
  - intros old -> Hne. case_decide as Heq; [|done]. by injection Heq.
  - intros ->. by case_decide.
  - simpl. apply lookup_insert_eq.
Qed.

(** C6 as it is stated fails: a file with the line ending CR LF differs
    from the content with the line ending LF, and is not rewritten. *)
Lemma write_if_changed_bytes_counterexample :
  let fname : str := "/docs/snippets/demo.md" in
  let crlf : str := "text" ++ [CR; LF] in
  let lf : str := "text" ++ [LF] in
  let st := {| disk := {[ fname := crlf ]}; writes := [] |} in
  disk st !! fname = Some crlf ∧ crlf ≠ lf
  ∧ write_if_changed fname lf st = (Ok tt, st).
Proof. split_and!; by vm_compute. Qed.

Lemma path_to_snippet_None (cwd script_dir fname : str) :
  path_to_snippet cwd script_dir fname = None
  ↔ ¬ snipets_path cwd script_dir `prefix_of` fname.
Proof.
  unfold path_to_snippet. destruct (startswith fname _) eqn:Hs; simpl.
  - apply startswith_spec in Hs. split; [done | by intros []].
  - split; [|done]. intros _ Hp%startswith_spec. congruence.
Qed.

Lemma path_to_snippet_below (cwd script_dir rel : str) :
  path_to_snippet cwd script_dir (snipets_path cwd script_dir ++ "/" ++ rel)
  = Some ("snippets/" ++ rel).
Proof.
  unfold path_to_snippet. rewrite startswith_app. simpl. do 2 f_equal.
  unfold slice_from. rewrite Nat.add_1_r.
  rewrite (app_assoc _ "/" rel), drop_app_length'; [done|].
  by rewrite length_app, Nat.add_1_r.
Qed.

(** C3, as the code has it: the test is one of text. [path_to_snippet]
    returns [None] exactly for the paths that do not begin with the text of
    the snippets folder's path, and for a path that continues the folder's
    path with a separator and [rel] it returns [snippets/rel]. So every path
    inside the folder has a reference, and a path without one is outside. *)
Theorem path_to_snippet_lexical (cwd script_dir fname : str) :
  (path_to_snippet cwd script_dir fname = None
   ↔ ¬ snipets_path cwd script_dir `prefix_of` fname)
  ∧ (∀ rel : str,
       path_to_snippet cwd script_dir (snipets_path cwd script_dir ++ "/" ++ rel)
       = Some ("snippets/" ++ rel))
  ∧ (inside_root cwd script_dir fname →
     is_Some (path_to_snippet cwd script_dir fname)).
Proof.
  split_and!.
  - apply path_to_snippet_None.
  - apply path_to_snippet_below.
  - intros Hin. destruct (path_to_snippet cwd script_dir fname) eqn:Hnone; [done|].
    apply path_to_snippet_None in Hnone. destruct Hnone.
    destruct Hin as [->|Hp]; [done|].
    etrans; [|exact Hp]. by apply prefix_app_r.
Qed.

(** C3 as it is stated fails: a path in a sibling folder whose name begins
    with the name of the snippets folder is outside the folder, and
    [path_to_snippet] returns a reference for it, which names no file. *)
Lemma path_to_snippet_sibling_counterexample :
  let cwd : str := "/" in
  let script_dir : str := "/docs/scripts" in
  let fname : str := "/docs/snippets-old/demo.py" in
  snipets_path cwd script_dir = "/docs/snippets"
  ∧ ¬ inside_root cwd script_dir fname
  ∧ path_to_snippet cwd script_dir fname = Some ("snippets/old/demo.py" : str).
Proof.
  split_and!; [by vm_compute | | by vm_compute].
  unfold inside_root. vm_compute snipets_path.
  intros [Heq|Hp]; [discriminate|].
  apply (bool_decide_pack _) in Hp. by vm_compute in Hp.
Qed.

(** ** Splitting and joining *)

Lemma str_split_nonempty (c : ascii) (s : str) : str_split c s ≠ [].
Proof.
  induction s as [|x s IH]; simpl; [done|].
  destruct (decide (x = c)); [done|]. by destruct (str_split c s).
Qed.

Lemma str_split_app (c : ascii) (a b : str) :
  str_split c (a ++ c :: b) = str_split c a ++ str_split c b.
Proof.
  induction a as [|x a IH]; simpl.
  - by rewrite decide_True.
  - destruct (decide (x = c)); [by rewrite IH|].
    rewrite IH. pose proof (str_split_nonempty c a).
    by destruct (str_split c a).
Qed.

Lemma str_split_no_sep (c : ascii) (s : str) : c ∉ s → str_split c s = [s].
Proof.
  induction s as [|x s IH]; simpl; [done|].
  rewrite not_elem_of_cons. intros [Hx Hs]. rewrite decide_False by done.
  by rewrite IH.
Qed.

Lemma str_split_parts (c : ascii) (s x : str) : x ∈ str_split c s → c ∉ x.
Proof.
  revert x. induction s as [|y s IH]; simpl; intros x.
  - intros ->%list_elem_of_singleton. apply not_elem_of_nil.
  - destruct (decide (y = c)) as [->|Hne].
    + intros [->|Hin]%elem_of_cons; [apply not_elem_of_nil | by apply IH].
    + pose proof (str_split_nonempty c s).
      destruct (str_split c s) as [|h t]; [done|].
      intros [->|Hin]%elem_of_cons.
      * apply not_elem_of_cons. split; [done|]. apply IH. by left.
      * apply IH. by right.
Qed.

Lemma str_join_snoc (sep : str) (l : list str) (x : str) :
  l ≠ [] → str_join sep (l ++ [x]) = str_join sep l ++ sep ++ x.
Proof.
  induction l as [|y l IH]; [done|]. intros _.
  destruct l as [|z l]; [done|].
  change (str_join sep ((y :: z :: l) ++ [x]))
    with (y ++ sep ++ str_join sep ((z :: l) ++ [x])).
  rewrite IH by done.
  change (str_join sep (y :: z :: l)) with (y ++ sep ++ str_join sep (z :: l)).
  by rewrite <- !app_assoc.
Qed.

Lemma str_split_join (c : ascii) (l : list str) :
  l ≠ [] → Forall (λ x, c ∉ x) l → str_split c (str_join [c] l) = l.
Proof.
  induction l as [|x l IH]; [done|]. intros _ Hall.
  apply Forall_cons in Hall as [Hx Hl].
  destruct l as [|y l]; [by apply str_split_no_sep|].
  change (str_join [c] (x :: y :: l)) with (x ++ c :: str_join [c] (y :: l)).
  rewrite str_split_app, IH by done. by rewrite str_split_no_sep.
Qed.

(** ** Paths in normal form *)

Lemma proper_name_no_slash (c : str) : proper_name c → slash ∉ c.
Proof. by intros (_ & ? & _). Qed.

Lemma no_slash_head (f : str) : slash ∉ f → startswith f "/" = false.
Proof.
  intros Hf. apply bool_decide_eq_false. intros [k ->].
  apply Hf. by left.
Qed.

Lemma str_join_last_char (cs : list str) (p : str) :
  cs ≠ [] → Forall proper_name cs →
  ∃ q x, p ++ str_join "/" cs = q ++ [x] ∧ x ≠ slash.
Proof.
  intros Hne Hall. destruct (exists_last Hne) as [cs' [c ->]].
  rewrite Forall_app, Forall_singleton in Hall.
  destruct Hall as (_ & Hc & Hslash & _).
  destruct (exists_last Hc) as [c' [x ->]].
  assert (x ≠ slash) as Hx.
  { intros ->. apply Hslash. apply elem_of_app. right. by left. }
  destruct cs' as [|c0 cs'].
  - exists (p ++ c'), x. simpl. by rewrite app_assoc.
  - rewrite str_join_snoc by done.
    exists (p ++ str_join "/" (c0 :: cs') ++ "/" ++ c'), x.
    by rewrite <- !app_assoc.
Qed.

Lemma normal_abs_nonempty (p : str) : normal_abs p → p ≠ [].
Proof. intros (sl & cs & [-> | ->] & _ & _ & ->); done. Qed.

Lemma normal_abs_isabs (p : str) : normal_abs p → isabs p = true.
Proof.
  intros (sl & cs & [-> | ->] & _ & _ & ->); apply startswith_spec.
  - by eexists.
  - exists ("/" ++ str_join "/" cs). done.
Qed.

Lemma normal_abs_no_trailing_slash (p : str) :
  normal_abs p → endswith p "/" = false.
Proof.
  intros (sl & cs & _ & Hne & Hall & ->).
  destruct (str_join_last_char cs sl Hne Hall) as (q & x & -> & Hx).
  apply bool_decide_eq_false. intros [k Hk].
  apply (app_inj_tail q k x slash) in Hk as [_ Hk]. by apply Hx.
Qed.

(** [join] below a path in normal form appends a separator and the name. *)
Lemma join_normal_abs (p f : str) :
  normal_abs p → slash ∉ f → join p f = p ++ "/" ++ f.
Proof.
  intros Hp Hf. unfold join.
  rewrite (no_slash_head f Hf), (normal_abs_no_trailing_slash p Hp).
  rewrite bool_decide_eq_false_2; [done|]. by apply normal_abs_nonempty.
Qed.

Lemma normal_abs_child (p d : str) :
  normal_abs p → proper_name d → normal_abs (p ++ "/" ++ d).
Proof.
  intros (sl & cs & Hsl & Hne & Hall & ->) Hd.
  exists sl, (cs ++ [d]). split_and!; [done | by destruct cs | |].
  - apply Forall_app. split; [done|]. by apply Forall_singleton.
  - rewrite str_join_snoc by done. by rewrite <- !app_assoc.
Qed.

Lemma join_absolute (a p : str) : isabs p = true → join a p = p.
Proof. unfold join, isabs. by intros ->. Qed.

(** ** [normpath] and the snippets folder *)

Lemma normpath_step_proper (k : nat) (acc : list str) (c : str) :
  proper_name c → normpath_step k acc c = acc ++ [c].
Proof.
  intros (Hne & _ & Hdot & Hdots). unfold normpath_step.
  rewrite bool_decide_eq_false_2 by (by intros [?|?]).
  rewrite bool_decide_eq_true_2; [done | by left].
Qed.

Lemma normpath_step_empty (k : nat) (acc : list str) :
  normpath_step k acc [] = acc.
Proof. done. Qed.

Lemma normpath_fold_proper (k : nat) (acc cs : list str) :
  Forall proper_name cs → foldl (normpath_step k) acc cs = acc ++ cs.
Proof.
  intros Hall. revert acc.
  induction Hall as [|c cs Hc _ IH]; intros acc; simpl.
  - by rewrite app_nil_r.
  - rewrite normpath_step_proper, IH by done. by rewrite <- app_assoc.
Qed.

Lemma Forall_removelast {A} (P : A → Prop) (l : list A) :
  Forall P l → Forall P (removelast l).
Proof.
  induction 1 as [|x l Hx Hl IH]; simpl; [done|].
  destruct l; [done|]. by constructor.
Qed.

(** For an absolute path, the loop of [normpath] keeps proper names only. *)
Lemma normpath_step_keeps_proper (k : nat) (acc : list str) (c : str) :
  k ≠ 0 → slash ∉ c → Forall proper_name acc →
  Forall proper_name (normpath_step k acc c).
Proof.
  intros Hk Hc Hacc. unfold normpath_step.
  case_bool_decide as Hskip; [done|].
  case_bool_decide as Hkeep.
  - apply Forall_app. split; [done|]. apply Forall_singleton.
    destruct Hkeep as [Hdots | [[? _] | [Hne Hlast]]]; [| done |].
    + split_and!; [|done| |done]; intros ->; apply Hskip; first [by left | by right].
    + apply last_Some in Hlast as [acc' ->].
      rewrite Forall_app, Forall_singleton in Hacc.
      by destruct Hacc as (_ & _ & _ & _ & []).
  - by apply Forall_removelast.
Qed.

Lemma normpath_fold_keeps_proper (k : nat) (acc comps : list str) :
  k ≠ 0 → Forall (λ c, slash ∉ c) comps → Forall proper_name acc →
  Forall proper_name (foldl (normpath_step k) acc comps).
Proof.
  intros Hk Hcomps. revert acc.
  induction Hcomps as [|c comps Hc _ IH]; intros acc Hacc; simpl; [done|].
  by apply IH, normpath_step_keeps_proper.
Qed.

Lemma str_join_first_char (cs : list str) :
  cs ≠ [] → Forall proper_name cs →
  ∃ x rest, str_join "/" cs = x :: rest ∧ x ≠ slash.
Proof.
  destruct cs as [|c cs]; [done|]. intros _ Hall.
  apply Forall_cons in Hall as [(Hne & Hslash & _) _].
  destruct c as [|x c]; [done|].
  exists x. assert (x ≠ slash) by (intros ->; apply Hslash; by left).
  destruct cs; simpl; by eexists.
Qed.

(** [normpath] leaves a path in normal form as it is. *)
Lemma normpath_normal_abs (p : str) : normal_abs p → normpath p = p.
Proof.
  intros (sl & cs & Hsl & Hne & Hall & ->).
  destruct (str_join_first_char cs Hne Hall) as (x & rest & Hjoin & Hx).
  assert (str_split slash (str_join "/" cs) = cs) as Hsplit.
  { apply (str_split_join slash); [done|].
    eapply Forall_impl; [exact Hall|]. by intros c (_ & ? & _). }
  assert (startswith (x :: rest) "/" = false) as Hhead.
  { apply bool_decide_eq_false. intros [k [= -> _]]. done. }
  unfold normpath. destruct Hsl as [-> | ->].
  - rewrite bool_decide_eq_false_2 by done.
    replace (startswith ("/" ++ str_join "/" cs) "/") with true
      by (symmetry; apply startswith_spec; by eexists).
    replace (startswith ("/" ++ str_join "/" cs) "//") with false.
    2:{ symmetry. apply bool_decide_eq_false. rewrite Hjoin.
        intros [k [= -> _]]. done. }
    change (str_split slash ("/" ++ str_join "/" cs))
      with ([] :: str_split slash (str_join "/" cs)).
    rewrite Hsplit. cbn [andb foldl]. rewrite normpath_step_empty.
    rewrite normpath_fold_proper by done. done.
  - rewrite bool_decide_eq_false_2 by done.
    replace (startswith ("//" ++ str_join "/" cs) "/") with true
      by (symmetry; apply startswith_spec; by eexists).
    replace (startswith ("//" ++ str_join "/" cs) "//") with true
      by (symmetry; apply startswith_spec; by eexists).
    replace (startswith ("//" ++ str_join "/" cs) "///") with false.
    2:{ symmetry. apply bool_decide_eq_false. rewrite Hjoin.
        intros [k [= -> _]]. done. }
    change (str_split slash ("//" ++ str_join "/" cs))
      with ([] :: [] :: str_split slash (str_join "/" cs)).
    rewrite Hsplit. cbn [andb negb foldl]. rewrite !normpath_step_empty.
    rewrite normpath_fold_proper by done. done.
Qed.

(** [join] with a relative second part puts exactly one separator before
    it. *)
Lemma join_relative (a b : str) :
  a ≠ [] → startswith b "/" = false →
  ∃ w, join a b = w ++ "/" ++ b ∧ (a = w ∨ a = w ++ "/").
Proof.
  intros Ha Hb. unfold join. rewrite Hb, bool_decide_eq_false_2 by done.
  destruct (endswith a "/") eqn:Hend; simpl.
  - apply endswith_spec in Hend as [w ->]. exists w.
    split; [by rewrite <- app_assoc | by right].
  - exists a. split; [done | by left].
Qed.

(** The argument of [abspath] in the definition of [snipets_path]. *)
Lemma snippets_join (script_dir : str) :
  isabs script_dir = true →
  ∃ w, join (join script_dir "..") "snippets"
       = w ++ "/" ++ ".." ++ "/" ++ "snippets"
       ∧ isabs (join (join script_dir "..") "snippets") = true.
Proof.
  intros Habs. apply startswith_spec in Habs.
  destruct (join_relative script_dir ".." ) as (w & Hup & Hw);
    [by destruct Habs as [? ->] | done |].
  destruct (join_relative (join script_dir "..") "snippets")
    as (w' & Hjoin & Hw'); [rewrite Hup; by_length | done |].
  assert (w' = w ++ "/" ++ "..") as ->.
  { destruct Hw' as [<- | Hw']; [done|]. exfalso.
    rewrite Hup in Hw'.
    change (w ++ "/" ++ "..") with (w ++ "/." ++ ["."%char]) in Hw'.
    rewrite !app_assoc in Hw'.
    by apply (app_inj_tail _ w' "."%char slash) in Hw' as [_ ?]. }
  exists w. split; [by rewrite Hjoin, <- !app_assoc|].
  rewrite Hjoin. apply startswith_spec.
  destruct w as [|c w].
  - by eexists.
  - destruct Habs as [rest Hrest].
    assert (c = slash) as ->; [|by eexists].
    destruct Hw as [Hw | Hw]; rewrite Hw in Hrest; by injection Hrest.
Qed.

Lemma proper_name_snippets : proper_name "snippets".
Proof.
  split_and!; [done | | done | done].
  apply (bool_decide_unpack _). by vm_compute.
Qed.

(** The snippets folder is an absolute path in normal form whose last name
    is [snippets]. *)
Lemma snipets_path_normal (cwd script_dir : str) :
  isabs script_dir = true → normal_abs (snipets_path cwd script_dir).
Proof.
  intros Habs. unfold snipets_path, abspath.
  destruct (snippets_join script_dir Habs) as (w & Hjoin & Hisabs).
  rewrite Hisabs. unfold isabs in Hisabs. rewrite Hjoin in Hisabs |- *.
  set (x := w ++ "/" ++ ".." ++ "/" ++ "snippets") in *.
  unfold normpath. rewrite Hisabs.
  rewrite bool_decide_eq_false_2 by (subst x; by_length).
  set (k := if startswith x "//" && negb (startswith x "///") then 2 else 1).
  assert (k ≠ 0) as Hk by (subst k; by destruct (_ && _)).
  assert (str_split slash x = str_split slash w ++ [".." : str; "snippets" : str])
    as ->.
  { subst x. change ("/" ++ ".." ++ "/" ++ "snippets")
      with (slash :: ".." ++ slash :: "snippets").
    rewrite str_split_app. by f_equal. }
  rewrite foldl_app.
  set (n := foldl (normpath_step k) [] (str_split slash w)).
  assert (Forall proper_name n) as Hn.
  { apply normpath_fold_keeps_proper; [done | | done].
    apply Forall_forall. intros c. apply str_split_parts. }
  assert (normpath_step k n ".." = removelast n) as Hpop.
  { unfold normpath_step. rewrite bool_decide_eq_false_2 by (by intros [?|?]).
    rewrite bool_decide_eq_false_2; [done|].
    intros [? | [[? _] | [_ Hlast]]]; [done..|].
    apply last_Some in Hlast as [n' Hn']. rewrite Hn' in Hn.
    rewrite Forall_app, Forall_singleton in Hn.
    by destruct Hn as (_ & _ & _ & _ & []). }
  cbn [foldl]. rewrite Hpop.
  rewrite normpath_step_proper by apply proper_name_snippets.
  assert (∃ sl : str, (sl = "/" ∨ sl = "//") ∧ concat (replicate k ("/" : str)) = sl)
    as (sl & Hsl & ->).
  { subst k. destruct (_ && _); eexists; (split; [|done]); first [by right | by left]. }
  rewrite bool_decide_eq_false_2.
  2:{ destruct Hsl as [-> | ->]; done. }
  exists sl, (removelast n ++ ["snippets" : str]). split_and!; [done | | | done].
  - by destruct (removelast n).
  - apply Forall_app. split; [by apply Forall_removelast|].
    apply Forall_singleton, proper_name_snippets.
Qed.

(** ** The folders of the walk *)

Lemma dirtree_induction (P : dirtree → Prop) :
  (∀ subdirs, Forall (λ sub, P sub.2) subdirs → P (Dir subdirs)) →
  ∀ t, P t.
Proof.
  intros HDir. fix IH 1. intros [subdirs]. apply HDir.
  induction subdirs as [|sub subdirs IHsubdirs]; constructor.
  - apply IH.
  - apply IHsubdirs.
Qed.

Lemma wf_dirtree_Dir (subdirs : list (str * dirtree)) :
  wf_dirtree (Dir subdirs)
  ↔ Forall (λ sub, proper_name sub.1 ∧ wf_dirtree sub.2) subdirs.
Proof.
  simpl. induction subdirs as [|sub subdirs IH].
  - split; [by constructor | done].
  - rewrite Forall_cons, <- IH. split; [intros (? & ? & ?) | intros ((? & ?) & ?)]; done.
Qed.

Lemma elem_of_walk_dirs (top r : str) (subdirs : list (str * dirtree)) :
  r ∈ walk_dirs top (Dir subdirs)
  ↔ r = top ∨ ∃ sub, sub ∈ subdirs ∧ r ∈ walk_dirs (join top sub.1) sub.2.
Proof.
  simpl. rewrite elem_of_cons, list_elem_of_In, in_flat_map.
  setoid_rewrite <- list_elem_of_In. done.
Qed.

(** Every folder of the walk is a path in normal form that is the top
    folder or continues it with a separator. *)
Lemma walk_dirs_normal (t : dirtree) (top r : str) :
  normal_abs top → wf_dirtree t → r ∈ walk_dirs top t →
  normal_abs r ∧ (r = top ∨ (top ++ "/") `prefix_of` r).
Proof.
  revert top. induction t as [subdirs IH] using dirtree_induction.
  intros top Htop Hwf%wf_dirtree_Dir Hin%elem_of_walk_dirs.
  destruct Hin as [-> | (sub & Hsub & Hin)].
  { split; [done|]. by left. }
  rewrite Forall_forall in IH, Hwf.
  destruct (Hwf sub Hsub) as [Hname Hwfsub].
  rewrite join_normal_abs in Hin; [| done | by apply proper_name_no_slash].
  destruct (IH sub Hsub (top ++ "/" ++ sub.1) (normal_abs_child _ _ Htop Hname)
              Hwfsub Hin) as [Hr Hunder].
  split; [done|]. right. destruct Hunder as [-> | Hp].
  - rewrite app_assoc. by apply prefix_app_r.
  - etrans; [|exact Hp]. rewrite !app_assoc. by do 2 apply prefix_app_r.
Qed.

Section Roots.

Context (cwd script_dir : str).
Hypothesis script_dir_abs : isabs script_dir = true.

(** [generate] passes each folder of the walk to [process_folder] as it
    is, and the folder lies under the snippets folder. *)
Lemma generate_folder (tree : dirtree) (root : str) :
  wf_dirtree tree → root ∈ walk (snipets_path cwd script_dir) (Some tree) →
  abspath cwd (join (snipets_path cwd script_dir) root) = root
  ∧ normal_abs root ∧ inside_root cwd script_dir root.
Proof using script_dir_abs.
  intros Hwf Hin.
  destruct (walk_dirs_normal tree _ root
              (snipets_path_normal cwd script_dir script_dir_abs) Hwf Hin)
    as [Hroot Hunder].
  pose proof (normal_abs_isabs root Hroot) as Habs.
  split_and!; [|done..].
  unfold abspath. rewrite join_absolute by done. rewrite Habs.
  by apply normpath_normal_abs.
Qed.

(** Below such a folder, the reference of a directory entry is its path
    relative to the snippets folder. *)
Lemma path_to_snippet_entry (root name : str) :
  inside_root cwd script_dir root → normal_abs root → slash ∉ name →
  ∃ rel, path_to_snippet cwd script_dir (join root name) = Some ("snippets/" ++ rel)
         ∧ snipets_path cwd script_dir ++ "/" ++ rel = root ++ "/" ++ name.
Proof.
  intros Hunder Hroot Hname. rewrite join_normal_abs by done.
  destruct Hunder as [-> | [rel ->]].
  - exists name. split; [|done]. apply path_to_snippet_below.
  - exists (rel ++ "/" ++ name). rewrite <- !app_assoc. split; [|done].
    apply (path_to_snippet_below cwd script_dir (rel ++ "/" ++ name)).
Qed.

End Roots.

(** ** The groups of a folder *)


Lemma group_file_split (found : dict (list str)) (fname : str) :
  group_file found fname
  = match split_name fname with
    | Some (base, ext) => setdefault_append base ext found
    | None => found
    end.
Proof.
  unfold split_name.
  destruct (matched_extension fname) as [ext|] eqn:Hm.
  - destruct (group_file_matched found _ _ Hm) as (base & -> & Hne & ->).
    by rewrite slice_to_neg_app.
  - by apply group_file_unmatched.
Qed.


Lemma dict_lookup_setdefault_append (d : dict (list str)) (k v b : str) :
  dict_lookup (setdefault_append k v d) b
  = if decide (b = k) then Some (default [] (dict_lookup d k) ++ [v])
    else dict_lookup d b.
Proof.
  induction d as [|[k' vs] d IH]; simpl.
  - destruct (decide (k = b)), (decide (b = k)); congruence.
  - destruct (decide (k' = k)) as [->|Hne]; simpl.
    + destruct (decide (k = b)), (decide (b = k)); congruence.
    + rewrite IH. destruct (decide (k' = b)), (decide (b = k)); congruence.
Qed.

Lemma dict_keys_setdefault_append (d : dict (list str)) (k v : str) :
  dict_keys (setdefault_append k v d)
  = if decide (k ∈ dict_keys d) then dict_keys d else dict_keys d ++ [k].
Proof.
  unfold dict_keys. induction d as [|[k' vs] d IH].
  - cbn. case_decide as Hin; [|done]. by apply elem_of_nil in Hin.
  - cbn [setdefault_append]. destruct (decide (k' = k)) as [->|Hne].
    + clear IH. cbn. case_decide as Hnin; [done|]. exfalso. apply Hnin. by left.
    + cbn [fmap list_fmap]. rewrite IH. clear IH. cbn.
      destruct (decide (k ∈ d.*1)) as [Hin|Hnin]; case_decide as Hin'; try done.
      * exfalso. apply Hin'. by right.
      * apply elem_of_cons in Hin' as [?|?]; done.
Qed.

Lemma NoDup_setdefault_append (d : dict (list str)) (k v : str) :
  NoDup (dict_keys d) → NoDup (dict_keys (setdefault_append k v d)).
Proof.
  intros Hd. rewrite dict_keys_setdefault_append.
  destruct (decide _); [done|]. apply NoDup_app. split_and!; [done | | apply NoDup_singleton].
  by intros x Hx ->%list_elem_of_singleton.
Qed.

Lemma elem_of_dict {V} (d : dict V) (k : str) (v : V) :
  NoDup (dict_keys d) → (k, v) ∈ d ↔ dict_lookup d k = Some v.
Proof.
  unfold dict_keys. induction d as [|[k' v'] d IH]; simpl; intros Hd.
  - split; [by intros ?%elem_of_nil | done].
  - apply NoDup_cons in Hd as [Hk' Hd]. rewrite elem_of_cons, IH by done.
    destruct (decide (k' = k)) as [->|Hne].
    + split; [|by intros [= ->]; left].
      intros [[= ->] | Hlook]; [done|]. exfalso. apply Hk'.
      apply (dict_lookup_is_Some d k). by eexists.
    + split; [by intros [[= ? ?] | ?] | by right].
Qed.

Lemma groups_of_nil : groups_of [] [].
Proof.
  split_and!; [constructor | | done].
  intros base. split; [by intros ?%elem_of_nil|].
  by intros (? & ? & ?%elem_of_nil & _).
Qed.

Lemma groups_of_snoc (files : list str) (found : dict (list str)) (fname : str) :
  groups_of files found → groups_of (files ++ [fname]) (group_file found fname).
Proof.
  intros (Hnodup & Hkeys & Hexts). rewrite group_file_split.
  destruct (split_name fname) as [[b e]|] eqn:Hsplit.
  - split_and!.
    + by apply NoDup_setdefault_append.
    + intros base. rewrite dict_keys_setdefault_append.
      assert (base ∈ dict_keys found ++ [b] ↔ base ∈ dict_keys found ∨ base = b)
        as Hsnoc by (rewrite elem_of_app, list_elem_of_singleton; done).
      destruct (decide (b ∈ dict_keys found)) as [Hb|Hb].
      * rewrite Hkeys. split.
        -- intros (f & ext & Hf & Hs). exists f, ext.
           split; [|done]. apply elem_of_app. by left.
        -- intros (f & ext & [Hf | ->%list_elem_of_singleton]%elem_of_app & Hs).
           ++ by exists f, ext.
           ++ rewrite Hsplit in Hs. injection Hs as -> ->. by apply Hkeys.
      * rewrite Hsnoc, Hkeys. split.
        -- intros [(f & ext & Hf & Hs) | ->].
           ++ exists f, ext. split; [|done]. apply elem_of_app. by left.
           ++ exists fname, e. split; [|done]. apply elem_of_app. right. by left.
        -- intros (f & ext & [Hf | ->%list_elem_of_singleton]%elem_of_app & Hs).
           ++ left. by exists f, ext.
           ++ rewrite Hsplit in Hs. injection Hs as -> ->. by right.
    + intros base exts. rewrite dict_lookup_setdefault_append.
      destruct (decide (base = b)) as [->|Hne].
      * intros [= <-] ext. rewrite elem_of_app, list_elem_of_singleton.
        assert (ext ∈ default [] (dict_lookup found b)
                ↔ ∃ f, f ∈ files ∧ split_name f = Some (b, ext)) as ->.
        { destruct (dict_lookup found b) as [old|] eqn:Hold; simpl.
          - by apply Hexts.
          - split; [by intros ?%elem_of_nil|]. intros (f & Hf & Hs). exfalso.
            assert (b ∈ dict_keys found) as Hb by (apply Hkeys; eauto).
            apply dict_lookup_is_Some in Hb as [? Hb]. congruence. }
        split.
        -- intros [(f & Hf & Hs) | ->].
           ++ exists f. split; [|done]. apply elem_of_app. by left.
           ++ exists fname. split; [|done]. apply elem_of_app. right. by left.
        -- intros (f & [Hf | ->%list_elem_of_singleton]%elem_of_app & Hs).
           ++ left. by exists f.
           ++ rewrite Hsplit in Hs. injection Hs as ->. by right.
      * intros Hlook ext. rewrite (Hexts base exts Hlook). split.
        -- intros (f & Hf & Hs). exists f. split; [|done]. apply elem_of_app. by left.
        -- intros (f & [Hf | ->%list_elem_of_singleton]%elem_of_app & Hs).
           ++ by exists f.
           ++ rewrite Hsplit in Hs. by injection Hs as -> _.
  - split_and!; [done | |].
    + intros base. rewrite Hkeys. split.
      * intros (f & ext & Hf & Hs). exists f, ext.
        split; [|done]. apply elem_of_app. by left.
      * intros (f & ext & [Hf | ->%list_elem_of_singleton]%elem_of_app & Hs).
        -- by exists f, ext.
        -- congruence.
    + intros base exts Hlook ext. rewrite (Hexts base exts Hlook). split.
      * intros (f & Hf & Hs). exists f. split; [|done]. apply elem_of_app. by left.
      * intros (f & [Hf | ->%list_elem_of_singleton]%elem_of_app & Hs).
        -- by exists f.
        -- congruence.
Qed.

Lemma groups_of_files (files : list str) :
  groups_of files (foldl group_file [] files).
Proof.
  induction files as [|fname files IH] using rev_ind.
  - apply groups_of_nil.
  - rewrite foldl_app. simpl. by apply groups_of_snoc.
Qed.

(** ** The combined files do not depend on the order of the file names *)

Lemma combined_content_ext (cwd script_dir path base : str) (exts exts' : list str) :
  (∀ ext, ext ∈ exts ↔ ext ∈ exts') →
  combined_content cwd script_dir path base exts
  = combined_content cwd script_dir path base exts'.
Proof.
  intros Hsame. unfold combined_content, present_blocks. do 2 f_equal.
  apply flat_map_ext. intros [ext lang].
  by rewrite (bool_decide_ext _ _ (Hsame ext)).
Qed.

Lemma groups_same_files (files1 files2 : list str) (found1 found2 : dict (list str)) :
  (∀ fname, is_Some (split_name fname) → fname ∈ files1 ↔ fname ∈ files2) →
  groups_of files1 found1 → groups_of files2 found2 →
  (∀ base, base ∈ dict_keys found1 ↔ base ∈ dict_keys found2)
  ∧ (∀ base exts1 exts2,
       dict_lookup found1 base = Some exts1 →
       dict_lookup found2 base = Some exts2 →
       ∀ ext, ext ∈ exts1 ↔ ext ∈ exts2).
Proof.
  intros Hfiles (_ & Hkeys1 & Hexts1) (_ & Hkeys2 & Hexts2). split.
  - intros base. rewrite Hkeys1, Hkeys2.
    split; intros (f & e & Hf & Hs); exists f, e; (split; [|done]);
      by apply (Hfiles f); [eexists|].
  - intros base exts1 exts2 H1 H2 ext.
    rewrite (Hexts1 _ _ H1), (Hexts2 _ _ H2).
    split; intros (f & Hf & Hs); exists f; (split; [|done]);
      by apply (Hfiles f); [eexists|].
Qed.

Lemma NoDup_dict {V} (d : dict V) : NoDup (dict_keys d) → NoDup d.
Proof. apply NoDup_fmap_1. Qed.

(** Two lists with the same recognized file names give the same combined
    files, each with the same content, up to the order in which they are
    written. *)
Lemma combined_files_same_files (cwd script_dir path : str) (files1 files2 : list str) :
  (∀ fname, is_Some (split_name fname) → fname ∈ files1 ↔ fname ∈ files2) →
  combined_files cwd script_dir path files1
  ≡ₚ combined_files cwd script_dir path files2.
Proof.
  intros Hfiles. unfold combined_files.
  pose proof (groups_of_files files1) as Hg1.
  pose proof (groups_of_files files2) as Hg2.
  set (found1 := foldl group_file [] files1) in *.
  set (found2 := foldl group_file [] files2) in *.
  destruct (groups_same_files _ _ _ _ Hfiles Hg1 Hg2) as [Hkeys Hexts].
  destruct Hg1 as (Hnd1 & _ & _), Hg2 as (Hnd2 & _ & _).
  set (h := λ '(base, exts),
         (join path (base ++ COMBINED_EXT),
          combined_content cwd script_dir path base exts)).
  set (twin := λ entry : str * list str,
         (entry.1, default [] (dict_lookup found2 entry.1))).
  assert (map h found1 = map h (map twin found1)) as ->.
  { rewrite map_map. apply map_ext_in.
    intros [base exts1] Hin%list_elem_of_In. unfold twin, h. simpl. f_equal.
    apply elem_of_dict in Hin as Hlook1; [|done].
    assert (base ∈ dict_keys found2) as Hin2.
    { apply Hkeys, (dict_lookup_is_Some found1 base). by eexists. }
    apply dict_lookup_is_Some in Hin2 as [exts2 Hlook2]. rewrite Hlook2. simpl.
    apply combined_content_ext. by apply (Hexts base). }
  apply Permutation_map, NoDup_Permutation.
  - apply (NoDup_fmap_1 fst). rewrite <- list_fmap_compose.
    by apply Hnd1.
  - by apply NoDup_dict.
  - intros [base exts]. rewrite list_elem_of_fmap. split.
    + intros ([base' exts1] & [= -> ->] & Hin). simpl.
      assert (base' ∈ dict_keys found2) as Hin2.
      { apply Hkeys. unfold dict_keys. apply list_elem_of_fmap.
        by exists (base', exts1). }
      apply dict_lookup_is_Some in Hin2 as [exts2 Hlook2]. rewrite Hlook2. simpl.
      by apply elem_of_dict.
    + intros Hin. apply elem_of_dict in Hin as Hlook2; [|done].
      assert (base ∈ dict_keys found1) as Hin1.
      { apply Hkeys, (dict_lookup_is_Some found2 base). by eexists. }
      apply dict_lookup_is_Some in Hin1 as [exts1 Hlook1].
      exists (base, exts1). split; [|by apply elem_of_dict].
      unfold twin. simpl. by rewrite Hlook2.
Qed.

(** C5: the combined files that [process_folder] computes for a folder, and
    the content of each, are the same for any two orders of the same file
    names; only the order in which they are written follows the order of the
    names. *)
Theorem combined_files_order_independent (cwd script_dir path : str)
    (files1 files2 : list str) :
  files1 ≡ₚ files2 →
  combined_files cwd script_dir path files1
  ≡ₚ combined_files cwd script_dir path files2
  ∧ (∀ st, process_folder cwd script_dir path files1 st
           = for_each (combined_files cwd script_dir path files1)
               (λ '(fname, content), write_if_changed fname content) st)
  ∧ (∀ fname content,
       (fname, content) ∈ combined_files cwd script_dir path files1
       ↔ (fname, content) ∈ combined_files cwd script_dir path files2).
Proof.
  intros Hperm.
  assert (combined_files cwd script_dir path files1
          ≡ₚ combined_files cwd script_dir path files2) as Hsame.
  { apply combined_files_same_files. intros fname _. by rewrite Hperm. }
  split_and!; [done | apply process_folder_writes |].
  intros fname content. by rewrite Hsame.
Qed.

(** ** What the writes of a folder leave on the disk *)





(** ** Combined files of different base names *)





(** ** A base name with one file *)





(** ** The files of a folder *)

Lemma entry_name_Some (d p name : str) :
  entry_name d p = Some name
  ↔ p = d ++ "/" ++ name ∧ name ≠ [] ∧ slash ∉ name.
Proof.
  unfold entry_name, slice_from.
  destruct (startswith p (d ++ "/")) eqn:Hstart.
  - apply startswith_spec in Hstart as [rest ->].
    replace (length d + 1) with (length (d ++ "/")) by (by rewrite length_app).
    rewrite drop_app_length, <- app_assoc.
    case_bool_decide as Hname.
    + split.
      * by intros [= <-].
      * intros [Heq _]. by apply app_inv_head, app_inv_head in Heq as ->.
    + split; [done|]. intros (Heq & ? & ?).
      apply app_inv_head, app_inv_head in Heq as ->. by destruct Hname.
  - split; [done|]. intros (-> & _). rewrite app_assoc in Hstart.
    by rewrite startswith_app in Hstart.
Qed.

Lemma elem_of_dir_files (d name : str) (files : gmap str str) :
  name ∈ dir_files d files
  ↔ name ≠ [] ∧ (slash ∉ name) ∧ is_Some (files !! (d ++ "/" ++ name)).
Proof.
  unfold dir_files. rewrite list_elem_of_omap. split.
  - intros (p & Hp & (-> & ? & ?)%entry_name_Some). split_and!; [done..|].
    apply list_elem_of_fmap in Hp as ([p content] & -> & Hp).
    apply elem_of_map_to_list in Hp. by eexists.
  - intros (? & ? & [content Hp]). exists (d ++ "/" ++ name). split.
    + apply list_elem_of_fmap. exists (d ++ "/" ++ name, content).
      split; [done|]. by apply elem_of_map_to_list.
    + by apply entry_name_Some.
Qed.


(** ** The references of a run *)



(** ** The example of the specification *)

Lemma demo_content (cwd script_dir : str) (exts : list str) :
  isabs script_dir = true →
  exts = [".py" : str; ".go" : str] ∨ exts = [".go" : str; ".py" : str] →
  combined_content cwd script_dir (snipets_path cwd script_dir) "demo" exts
  = demo_md.
Proof.
  intros Habs Hexts.
  pose proof (snipets_path_normal cwd script_dir Habs) as Hnormal.
  assert (present_blocks cwd script_dir (snipets_path cwd script_dir) "demo" exts
          = flat_map (λ '(ext, lang),
              if bool_decide (ext ∈ exts) then
                tab_block lang (default [] (dict_lookup SYNTAX_MAPPING ext))
                  (Some ("snippets/" ++ "demo" ++ ext))
              else []) LANGUAGE_ORDER) as Hblocks.
  { apply flat_map_ext. intros [ext lang].
    case_bool_decide as Hext; [|done]. f_equal.
    assert (slash ∉ "demo" ++ ext) as Hname.
    { destruct Hexts as [-> | ->];
        apply elem_of_cons in Hext as [-> | ->%list_elem_of_singleton];
        apply (bool_decide_unpack _); by vm_compute. }
    destruct (path_to_snippet_entry cwd script_dir
                (snipets_path cwd script_dir) ("demo" ++ ext))
      as (rel & -> & Hrel); [by left | done..|].
    by apply app_inv_head, app_inv_head in Hrel as ->. }
  unfold combined_content. rewrite Hblocks.
  by destruct Hexts as [-> | ->]; vm_compute.
Qed.

(** C1: when the snippets folder has no sub-folder and exactly the files
    [demo.py] and [demo.go], in whichever order they are reported,
    [generate] ends normally with one write: it creates [demo.md] in the
    folder, whose content is the block of Go, then the block of Python, with
    nothing in between and one LF at the end. *)
Theorem demo_end_to_end (cwd script_dir : str)
    (scandir_order : str → list str → list str)
    (files_on_disk : gmap str str) (log : list str) :
  isabs script_dir = true →
  (∀ d l, scandir_order d l ≡ₚ l) →
  dir_files (snipets_path cwd script_dir) files_on_disk
    ≡ₚ ["demo.py" : str; "demo.go" : str] →
  generate cwd script_dir scandir_order (Some (Dir []))
    {| disk := files_on_disk; writes := log |}
  = (Ok tt,
     {| disk := <[snipets_path cwd script_dir ++ "/demo.md" := demo_md]>
                  files_on_disk;
        writes := log ++ [snipets_path cwd script_dir ++ "/demo.md"] |}).
Proof.
  intros Habs Horder Hfiles.
  pose proof (snipets_path_normal cwd script_dir Habs) as Hnormal.
  destruct (generate_folder cwd script_dir Habs (Dir [])
              (snipets_path cwd script_dir) I) as (Hpath & _).
  { by left. }
  unfold generate. cbn [walk walk_dirs flat_map for_each].
  unfold bind at 1 2. unfold scandir at 1. cbn [disk]. rewrite Hpath.
  set (root := snipets_path cwd script_dir) in *.
  set (files := scandir_order root (dir_files root files_on_disk)).
  assert (files ≡ₚ ["demo.py" : str; "demo.go" : str]) as Hlisted
    by (unfold files; by rewrite Horder).
  rewrite process_folder_writes.
  assert (combined_files cwd script_dir root files
          = [(root ++ "/demo.md", demo_md)]) as ->.
  { unfold combined_files.
    assert (foldl group_file [] files = [("demo" : str, [".py" : str; ".go" : str])]
            ∨ foldl group_file [] files = [("demo" : str, [".go" : str; ".py" : str])])
      as Hgroups.
    { symmetry in Hlisted. apply Permutation_length_2_inv in Hlisted as [-> | ->];
        [left | right]; by vm_compute. }
    assert (join root ("demo" ++ COMBINED_EXT) = root ++ "/demo.md") as Hname.
    { apply join_normal_abs; [done|]. apply (bool_decide_unpack _). by vm_compute. }
    destruct Hgroups as [-> | ->]; cbn [map]; rewrite Hname; unfold root.
    - rewrite demo_content; [done.. | by left].
    - rewrite demo_content; [done.. | by right]. }
  assert (files_on_disk !! (root ++ "/demo.md") = None) as Hnone.
  { destruct (files_on_disk !! (root ++ "/demo.md")) as [old|] eqn:Hfile; [|done].
    exfalso.
    assert (("demo.md" : str) ∈ dir_files root files_on_disk) as Hlist.
    { apply elem_of_dir_files. split_and!; [done | | by eexists].
      apply (bool_decide_unpack _). by vm_compute. }
    rewrite Hfiles in Hlist. apply (bool_decide_pack _) in Hlist.
    by vm_compute in Hlist. }
  cbn [for_each]. unfold bind.
  by rewrite (write_if_changed_new (root ++ "/demo.md") demo_md
                {| disk := files_on_disk; writes := log |} Hnone).
Qed.

(** ** A file name with a carriage return *)

(** C4 at a failing input: the snippets folder [/docs/snippets] holds one
    file, whose name is [a], a carriage return, and [b.py]. The first run
    writes its combined file; the second run, with nothing changed, writes
    the same combined file again (with the same bytes): the include
    directive holds the carriage return of the name, which reading the
    combined file turns into LF, so the text read never equals the content
    computed. *)
Lemma generate_twice_carriage_return :
  let cwd : str := "/" in
  let script_dir : str := "/docs/scripts" in
  let snippet : str := "/docs/snippets/a" ++ [CR] ++ "b.py" in
  let combined : str := "/docs/snippets/a" ++ [CR] ++ "b.md" in
  let st0 := {| disk := {[ snippet := ("print(1)" : str) ]}; writes := [] |} in
  let run1 := generate cwd script_dir (λ _ l, l) (Some (Dir [])) st0 in
  let st1 := {| disk := disk run1.2; writes := [] |} in
  let run2 := generate cwd script_dir (λ _ l, l) (Some (Dir [])) st1 in
  run1.1 = Ok tt ∧ writes run1.2 = [combined]
  ∧ run2.1 = Ok tt ∧ writes run2.2 = [combined]
  ∧ disk run2.2 = disk st1.
Proof. split_and!; by vm_compute. Qed.

(** * Two runs in a row *)

(** ** Names of combined files *)






(** ** Runs of writes *)




(** ** The combined files of a folder *)

Section Plan.

Context (cwd script_dir : str).







End Plan.

(** ** Content without carriage return *)




Section Content.

Context (cwd script_dir : str).


End Content.

(** ** The first run and the second *)

Section Runs.

Context (cwd script_dir : str).
Hypothesis script_dir_abs : isabs script_dir = true.






End Runs.


(** * The statements at concrete inputs *)

(** A folder [/docs/snippets] with the two files of the example. *)
Lemma demo_end_to_end_witness :
  isabs "/docs/scripts" = true
  ∧ (∀ (d : str) (l : list str), l ≡ₚ l)
  ∧ generate "/" "/docs/scripts" (λ _ l, l) (Some (Dir []))
      {| disk := {[ ("/docs/snippets/demo.py" : str) := ("print(1)" : str);
                    ("/docs/snippets/demo.go" : str) := ("package main" : str) ]};
         writes := [] |}
    = (Ok tt,
       {| disk := <[snipets_path "/" "/docs/scripts" ++ "/demo.md" := demo_md]>
                    {[ ("/docs/snippets/demo.py" : str) := ("print(1)" : str);
                       ("/docs/snippets/demo.go" : str) := ("package main" : str) ]};
          writes := [] ++ [snipets_path "/" "/docs/scripts" ++ "/demo.md"] |}).
Proof.
  split_and!; [reflexivity | done |].
  apply (demo_end_to_end "/" "/docs/scripts" (λ _ l, l)); [reflexivity | done |].
  vm_compute. apply (bool_decide_unpack _). by vm_compute.
Defined.

Lemma combined_files_order_independent_witness :
  ["demo.py" : str; "demo.go" : str] ≡ₚ ["demo.go" : str; "demo.py" : str]
  ∧ combined_files "/" "/docs/scripts" "/docs/snippets"
      ["demo.py" : str; "demo.go" : str]
    ≡ₚ combined_files "/" "/docs/scripts" "/docs/snippets"
        ["demo.go" : str; "demo.py" : str].
Proof.
  split; [apply perm_swap|].
  apply (combined_files_order_independent "/" "/docs/scripts" "/docs/snippets"
           ["demo.py" : str; "demo.go" : str] ["demo.go" : str; "demo.py" : str]).
  apply perm_swap.
Defined.


Lemma unmatched_files_skipped_witness :
  Forall unrecognized ["notes.txt" : str; "README" : str]
  ∧ combined_files "/" "/docs/scripts" "/docs/snippets"
      ["notes.txt" : str; "README" : str] = []
  ∧ process_folder "/" "/docs/scripts" "/docs/snippets"
      ["notes.txt" : str; "README" : str] {| disk := ∅; writes := [] |}
    = (Ok tt, {| disk := ∅; writes := [] |}).
Proof.
  assert (Forall unrecognized ["notes.txt" : str; "README" : str]) as Hfiles.
  { repeat constructor; by apply unrecognized_unmatched. }
  split; [exact Hfiles|].
  apply (unmatched_files_skipped "/" "/docs/scripts" "/docs/snippets"
           ["notes.txt" : str; "README" : str] {| disk := ∅; writes := [] |} Hfiles).
Defined.


Lemma write_if_changed_compares_text_witness :
  (CR ∉ ("text" ++ [LF] : str))
  ∧ write_if_changed "/docs/snippets/demo.md" ("text" ++ [LF])
      {| disk := {[ ("/docs/snippets/demo.md" : str) := ("text" ++ [LF] : str) ]};
         writes := [] |}
    = (Ok tt,
       {| disk := {[ ("/docs/snippets/demo.md" : str) := ("text" ++ [LF] : str) ]};
          writes := [] |}).
Proof.
  assert (CR ∉ ("text" ++ [LF] : str)) as Hcontent.
  { apply (bool_decide_unpack _). by vm_compute. }
  split; [exact Hcontent|].
  apply (proj1 (write_if_changed_compares_text "/docs/snippets/demo.md"
                  ("text" ++ [LF])
                  {| disk := {[ ("/docs/snippets/demo.md" : str)
                                := ("text" ++ [LF] : str) ]};
                     writes := [] |} Hcontent) ("text" ++ [LF]));
    [by vm_compute | done].
Defined.

